(** * mazegen: the maze generator front end (src/mazegen.py)

    A shallow embedding of [ConfigGen] and [MazeGenerator].  The generator
    object is a record of its four attributes; the [set] objects it creates
    live in a store indexed by references, because [forbidden_cells] hands
    out a copy and what a caller does to that copy matters.  Every method is
    a computation in a state-and-exception monad: a Python exception leaves
    the attributes as they were when it was raised.

    The modules of the [maze_files] package ([Maze], the carver, the solver
    and the two optional routines) are collaborators: they are the fields of
    the class [MazeFiles], and every statement below holds for all of them. *)

From Stdlib Require Import ZArith Lia Ascii.
From stdpp Require Import base option list gmap strings pretty.

Local Open Scope Z_scope.

(** ** Python values and exceptions *)

(** A cell coordinate: a pair [(x, y)] of Python integers. *)
Definition coord : Type := Z * Z.

(** A reference to a [set] object. *)
Definition loc : Type := positive.

(** The exceptions this module raises are [RuntimeError] and [ValueError];
    [TypeError] is what the interpreter raises on [len(None)].  [OtherError]
    stands for any other exception class a collaborator may raise. *)
Inductive exn : Type :=
| RuntimeError (msg : string)
| ValueError (msg : string)
| TypeError (msg : string)
| OtherError (cls msg : string).

Inductive result (A : Type) : Type :=
| Ok (a : A)
| Raise (e : exn).
Arguments Ok {A} a.
Arguments Raise {A} e.

Definition is_Ok {A} (r : result A) : Prop := ∃ a, r = Ok a.
Definition is_Raise {A} (r : result A) : Prop := ∃ e, r = Raise e.

(** ** Configuration *)

(** [ConfigGen]: the dataclass of generation settings. *)
Record ConfigGen : Type := mkConfigGen {
  width : Z;
  height : Z;
  entry : coord;
  exit : coord;
  seed : Z;
  perfect : bool;
  marking_42 : bool
}.

(** The dataclass defaults: [seed = 0], [perfect = True],
    [marking_42 = True]. *)
Definition ConfigGen_defaults (w h : Z) (en ex : coord) : ConfigGen :=
  mkConfigGen w h en ex 0 true true.

(** ** Collaborators *)

(** The [maze_files] package.  A routine that receives the maze object may
    mutate it in place and may raise: it returns its outcome together with
    the maze as it left it.  The two guarded imports are [None] when the
    module could not be imported.  The carver receives the forbidden set and
    only reads it. *)
Class MazeFiles : Type := {
  Maze : Type;
  (** [Maze(height, width, entry, exit)] *)
  Maze_new : Z → Z → coord → coord → result Maze;
  (** the attribute [maze.grid] *)
  Maze_grid : Maze → list (list Z);
  dfs_maze_generator : Maze → gset coord → Z → result () * Maze;
  bfs_shortest_path_solver : Maze → result (list coord) * Maze;
  multiple_path_maze : option (Maze → result () * Maze);
  forty_two_marking : option (Maze → result (list coord) * Maze)
}.

(** ** The messages of the exceptions raised in mazegen.py *)

Definition maze_not_generated_msg : string :=
  "Maze not generated yer. Please call generate() functionfirst.".

Definition path_not_solved_msg : string := "Maze path is not solved yet.".

Definition multiple_path_missing_msg : string :=
  "Config Perfect=False but multiple_path_maze() was not found. Expected maze_files/multiple_path_maze.py to define multiple_path maze.".

(** [str] of a pair of integers, as an f-string prints it. *)
Definition str_coord (p : coord) : string :=
  "(" +:+ pretty p.1 +:+ ", " +:+ pretty p.2 +:+ ")".

Definition non_adjacent_msg (p q : coord) : string :=
  "Non-adjacent step in path for coordinates: "
    +:+ str_coord p +:+ " and " +:+ str_coord q.

Definition len_of_None_msg : string :=
  "object of type 'NoneType' has no len()".

(** ** The direction encoder: the loop of [coords_to_directions] *)

(** One iteration of the loop body: the letter appended for the pair
    [(x1, y1), (x2, y2)], or the [ValueError]. *)
Definition step_letter (p q : coord) : result string :=
  let '(x1, y1) := p in
  let '(x2, y2) := q in
  let dx := x2 - x1 in
  let dy := y2 - y1 in
  if (dx =? 0) && (dy =? -1) then Ok "N"
  else if (dx =? 1) && (dy =? 0) then Ok "E"
  else if (dx =? 0) && (dy =? 1) then Ok "S"
  else if (dx =? -1) && (dy =? 0) then Ok "W"
  else Raise (ValueError (non_adjacent_msg (x1, y1) (x2, y2))).

(** The [for] loop over the zipped pairs, with the accumulator [out]. *)
Fixpoint walk_pairs (pairs : list (coord * coord)) (out : list string)
  : result (list string) :=
  match pairs with
  | [] => Ok out
  | (p, q) :: rest =>
      match step_letter p q with
      | Ok c => walk_pairs rest (out ++ [c])
      | Raise e => Raise e
      end
  end.

(** [coords_to_directions] from the length test on: [coords_list] is a
    list here. *)
Definition encode_list (coords_list : list coord) : result string :=
  if bool_decide (length coords_list < 2)%nat then Ok ""
  else
    match walk_pairs (zip coords_list (drop 1 coords_list)) [] with
    | Ok out => Ok (String.concat "" out)
    | Raise e => Raise e
    end.

(** ** The generator object *)

Section Generator.
Context `{MF : MazeFiles}.

(** The attributes of a [MazeGenerator]: [_maze] and [_path] are
    [Optional], [_forbidden] refers to a [set] object. *)
Record MazeGenerator : Type := mkMazeGenerator {
  cfg : ConfigGen;
  _maze : option Maze;
  _path : option (list coord);
  _forbidden : loc
}.

(** The generator together with the store of [set] objects. *)
Record world : Type := mkWorld {
  self : MazeGenerator;
  sets : gmap loc (gset coord)
}.

(** Computations: a result and the world as the call left it. *)
Definition M (A : Type) : Type := world → result A * world.

#[local] Instance M_ret : MRet M := λ A a w, (Ok a, w).
#[local] Instance M_bind : MBind M := λ A B f m w,
  match m w with
  | (Ok a, w') => f a w'
  | (Raise e, w') => (Raise e, w')
  end.

Definition raise {A} (e : exn) : M A := λ w, (Raise e, w).

(** The outcome of an expression that does not touch the generator. *)
Definition lift {A} (r : result A) : M A := λ w, (r, w).

Definition read {A} (f : MazeGenerator → A) : M A := λ w, (Ok (f (self w)), w).

Definition assign_maze (m : option Maze) : M () := λ w,
  (Ok (), mkWorld (mkMazeGenerator (cfg (self w)) m (_path (self w))
                     (_forbidden (self w))) (sets w)).

Definition assign_path (p : option (list coord)) : M () := λ w,
  (Ok (), mkWorld (mkMazeGenerator (cfg (self w)) (_maze (self w)) p
                     (_forbidden (self w))) (sets w)).

Definition assign_forbidden (l : loc) : M () := λ w,
  (Ok (), mkWorld (mkMazeGenerator (cfg (self w)) (_maze (self w))
                     (_path (self w)) l) (sets w)).

(** [set(xs)]: a new set object holding the elements [X]. *)
Definition new_set (X : gset coord) : M loc := λ w,
  let l := fresh (dom (sets w)) in
  (Ok l, mkWorld (self w) (<[l := X]> (sets w))).

(** The elements of the set object at [l]. *)
Definition elems (l : loc) : M (gset coord) := λ w, (Ok (sets w !!! l), w).

(** A call [f(m)] of a collaborator on the maze object [m], to which
    [self._maze] refers: the maze is mutated in place, also when [f]
    raises.  The maze as [f] left it is returned with [f]'s value. *)
Definition call {A} (f : Maze → result A * Maze) (m : Maze) : M (A * Maze) :=
  λ w,
    let '(r, m') := f m in
    let w' := mkWorld (mkMazeGenerator (cfg (self w)) (Some m')
                         (_path (self w)) (_forbidden (self w))) (sets w) in
    match r with
    | Ok a => (Ok (a, m'), w')
    | Raise e => (Raise e, w')
    end.

(** [MazeGenerator(cfg)] *)
Definition __init__ (c : ConfigGen) (store : gmap loc (gset coord)) : world :=
  let l := fresh (dom store) in
  mkWorld (mkMazeGenerator c None None l) (<[l := ∅]> store).

(** The property [maze]. *)
Definition maze : M Maze :=
  m ← read _maze;
  match m with
  | None => raise (RuntimeError maze_not_generated_msg)
  | Some m => mret m
  end.

(** The property [grid]. *)
Definition grid : M (list (list Z)) :=
  m ← maze; mret (Maze_grid m).

(** The property [forbidden_cells]: [set(self._forbidden)]. *)
Definition forbidden_cells : M loc :=
  l ← read _forbidden;
  X ← elems l;
  new_set X.

(** The property [path].  Its value is a Python value: [None] or a list.
    The body has no [return] statement after the test, so that it falls
    off its end. *)
Definition path : M (option (list coord)) :=
  p ← read _path;
  match p with
  | None => raise (RuntimeError path_not_solved_msg)
  | Some _ => mret None
  end.

(** The marking step of [generate]. *)
Definition generate_marking (c : ConfigGen) (m : Maze) : M Maze :=
  if marking_42 c then
    match forty_two_marking with
    | Some forty_two_marking =>
        '(cells, m) ← call forty_two_marking m;
        l ← new_set (list_to_set cells);
        assign_forbidden l;;
        mret m
    | None => mret m
    end
  else mret m.

(** The braiding step of [generate]. *)
Definition generate_braiding (c : ConfigGen) (m : Maze) : M Maze :=
  if negb (perfect c) then
    match multiple_path_maze with
    | None => raise (RuntimeError multiple_path_missing_msg)
    | Some multiple_path_maze =>
        '(_, m) ← call multiple_path_maze m;
        mret m
    end
  else mret m.

(** [generate].  The source declares it with [@property]: evaluating the
    attribute runs this body. *)
Definition generate : M Maze :=
  c ← read cfg;
  m ← lift (Maze_new (height c) (width c) (entry c) (exit c));
  assign_maze (Some m);;
  assign_path None;;
  l ← new_set ∅;
  assign_forbidden l;;
  m ← generate_marking c m;
  l ← read _forbidden;
  F ← elems l;
  '(_, m) ← call (λ m, dfs_maze_generator m F (seed c)) m;
  m ← generate_braiding c m;
  mret m.

(** [solve_maze_path].  [list(self._path)] is a copy with the same
    elements. *)
Definition solve_maze_path : M (list coord) :=
  m ← maze;
  '(p, _) ← call bfs_shortest_path_solver m;
  assign_path (Some p);;
  mret p.

(** [coords_to_directions(coords)]; [coords = None] is the call without
    an argument.  [len] of [None] is a [TypeError]. *)
Definition coords_to_directions (coords : option (list coord)) : M string :=
  coords_list ← match coords with
                | None => path
                | Some coords => mret (Some coords)
                end;
  match coords_list with
  | None => raise (TypeError len_of_None_msg)
  | Some coords_list => lift (encode_list coords_list)
  end.

(** What a caller can do to a set object it holds: any update of its
    elements ([add], [discard], [clear], [update], ...). *)
Definition mutate_set (l : loc) (f : gset coord → gset coord) : M () := λ w,
  (Ok (), mkWorld (self w) (alter f l (sets w))).

End Generator.

Arguments MazeGenerator MF : clear implicits.
Arguments world MF : clear implicits.

(** The invariant of the store: [self._forbidden] refers to a set object
    that exists.  [__init__] establishes it and every method keeps it. *)
Definition store_ok `{MF : MazeFiles} (w : world MF) : Prop :=
  is_Some (sets w !! _forbidden (self w)).

(** ** The words of the specification *)

(** The four compass unit steps, with [y] growing downwards. *)
Definition north (p : coord) : coord := (p.1, p.2 - 1).
Definition east (p : coord) : coord := (p.1 + 1, p.2).
Definition south (p : coord) : coord := (p.1, p.2 + 1).
Definition west (p : coord) : coord := (p.1 - 1, p.2).

Definition unit_step (p q : coord) : Prop :=
  q = north p ∨ q = east p ∨ q = south p ∨ q = west p.

(** [p] and [q] are a consecutive pair of the sequence [l]. *)
Definition consecutive (l : list coord) (p q : coord) : Prop :=
  ∃ i : nat, l !! i = Some p ∧ l !! S i = Some q.

(** Each consecutive pair of [l] differs by one compass unit step. *)
Definition adjacent_steps (l : list coord) : Prop :=
  ∀ p q, consecutive l p q → unit_step p q.

(** The unit move a direction letter stands for. *)
Definition move (letter : ascii) (p : coord) : option coord :=
  if decide (letter = "N"%char) then Some (north p)
  else if decide (letter = "E"%char) then Some (east p)
  else if decide (letter = "S"%char) then Some (south p)
  else if decide (letter = "W"%char) then Some (west p)
  else None.

(** Replaying a direction string letter by letter from [p]: the cells
    visited, [p] included.  A character that is no direction letter ends
    the replay. *)
Fixpoint replay (p : coord) (s : string) : list coord :=
  p :: match s with
       | EmptyString => []
       | String letter s' =>
           match move letter p with
           | Some q => replay q s'
           | None => []
           end
       end.

(** The replay started at the first coordinate of [coords]. *)
Definition replay_from_first (coords : list coord) (s : string) : list coord :=
  match coords with
  | [] => []
  | p :: _ => replay p s
  end.

#[local] Instance unit_step_dec p q : Decision (unit_step p q).
Proof. unfold unit_step. apply _. Defined.

(** The marking step of [generate] seen from outside: the forbidden set it
    leaves in [self._forbidden], and the maze as it leaves it. *)
Definition marking_outcome `{MF : MazeFiles} (c : ConfigGen) (m : Maze)
  : result (gset coord) * Maze :=
  if marking_42 c then
    match forty_two_marking with
    | Some mark =>
        match mark m with
        | (Ok cells, m') => (Ok (list_to_set cells), m')
        | (Raise e, m') => (Raise e, m')
        end
    | None => (Ok ∅, m)
    end
  else (Ok ∅, m).

(** What [generate] does from the carver on, seen from outside: the carver
    runs on the maze [m] with the forbidden elements [F]; then, when
    [perfect] is false, the braider runs on the carved maze, if there is
    one. *)
Definition carving_outcome `{MF : MazeFiles} (c : ConfigGen) (m : Maze)
    (F : gset coord) : result Maze :=
  match dfs_maze_generator m F (seed c) with
  | (Raise e, _) => Raise e
  | (Ok _, m1) =>
      if perfect c then Ok m1
      else
        match multiple_path_maze with
        | None => Raise (RuntimeError multiple_path_missing_msg)
        | Some braid =>
            match braid m1 with
            | (Ok _, m2) => Ok m2
            | (Raise e, _) => Raise e
            end
        end
  end.

(** The number of unit steps between two cells. *)
Definition manhattan (p q : coord) : Z :=
  Z.abs (q.1 - p.1) + Z.abs (q.2 - p.2).

(** The cell [p] moved by the vector [d]. *)
Definition translate (d p : coord) : coord := (p.1 + d.1, p.2 + d.2).

(** The four letters of a direction string. *)
Definition is_direction (letter : ascii) : bool :=
  bool_decide (letter = "N"%char) || bool_decide (letter = "E"%char)
  || bool_decide (letter = "S"%char) || bool_decide (letter = "W"%char).

Fixpoint all_directions (s : string) : bool :=
  match s with
  | EmptyString => true
  | String letter s' => is_direction letter && all_directions s'
  end.

(** The letter of the step back. *)
Definition opposite (letter : ascii) : ascii :=
  if decide (letter = "N"%char) then "S"%char
  else if decide (letter = "E"%char) then "W"%char
  else if decide (letter = "S"%char) then "N"%char
  else if decide (letter = "W"%char) then "E"%char
  else letter.

(** The direction string of the way back: the opposite letters in reverse
    order. *)
Fixpoint way_back (s : string) : string :=
  match s with
  | EmptyString => EmptyString
  | String letter s' => way_back s' +:+ String (opposite letter) EmptyString
  end.

(** ** Stand-ins for the collaborators

    Small total collaborators, used to run the generator on concrete
    configurations.  The maze is the table of wall masks of the data model;
    the carver and the braider leave it as it is, and the solver walks along
    the entry row and then along the exit column. *)
Module Stub.

Record grid_maze : Type := mkGridMaze {
  rows : Z;
  cols : Z;
  masks : list (list Z);
  start : coord;
  goal : coord
}.

(** Every cell starts with mask 15: all walls closed. *)
Definition fresh_maze (h w : Z) (en ex : coord) : result grid_maze :=
  Ok (mkGridMaze h w (replicate (Z.to_nat h) (replicate (Z.to_nat w) 15)) en ex).

(** [n] unit steps from [p], the first step excluded from [p] itself. *)
Fixpoint stride (step : coord → coord) (n : nat) (p : coord) : list coord :=
  match n with
  | O => []
  | S n => step p :: stride step n (step p)
  end.

Definition elbow (m : grid_maze) : list coord :=
  let '(x0, y0) := start m in
  let '(x1, y1) := goal m in
  let along := stride (if x0 <? x1 then east else west) (Z.abs_nat (x1 - x0)) (x0, y0) in
  let down := stride (if y0 <? y1 then south else north) (Z.abs_nat (y1 - y0)) (x1, y0) in
  (x0, y0) :: along ++ down.

Definition keep (m : grid_maze) : result () * grid_maze := (Ok (), m).

Definition two_cells (m : grid_maze) : result (list coord) * grid_maze :=
  (Ok [(1, 1); (2, 1)], m).

(** A build in which both optional modules failed to import. *)
Definition bare : MazeFiles := {|
  Maze := grid_maze;
  Maze_new := fresh_maze;
  Maze_grid := masks;
  dfs_maze_generator := λ m _ _, keep m;
  bfs_shortest_path_solver := λ m, (Ok (elbow m), m);
  multiple_path_maze := None;
  forty_two_marking := None
|}.

(** A build with both optional modules. *)
Definition full : MazeFiles := {|
  Maze := grid_maze;
  Maze_new := fresh_maze;
  Maze_grid := masks;
  dfs_maze_generator := λ m _ _, keep m;
  bfs_shortest_path_solver := λ m, (Ok (elbow m), m);
  multiple_path_maze := Some keep;
  forty_two_marking := Some two_cells
|}.

(** The configuration of the example scenario: a 5 by 5 maze, seed 1,
    from (0,0) to (4,4), perfect, no marking. *)
Definition cfg55 : ConfigGen := mkConfigGen 5 5 (0, 0) (4, 4) 1 true false.

(** The same maze with braiding asked for. *)
Definition cfg55_braided : ConfigGen := mkConfigGen 5 5 (0, 0) (4, 4) 1 false false.

(** The same maze with the dataclass defaults: perfect, with marking. *)
Definition cfg55_marked : ConfigGen := ConfigGen_defaults 5 5 (0, 0) (4, 4).

(** The generator of the example scenario after [generate], and after
    [generate] and [solve_maze_path]. *)
Definition generated55 : world bare := (generate (__init__ cfg55 ∅)).2.
Definition solved55 : world bare := (solve_maze_path generated55).2.

(** The route the stand-in solver returns on that maze. *)
Definition route55 : list coord :=
  [(0, 0); (1, 0); (2, 0); (3, 0); (4, 0); (4, 1); (4, 2); (4, 3); (4, 4)].

(** A generator of the full build after [generate] with marking: its
    forbidden set holds the two marked cells. *)
Definition marked55 : world full := (generate (__init__ cfg55_marked ∅)).2.

(** A build whose collaborators check what they are given: the constructor
    refuses dimensions that are not positive, the marking routine refuses a
    maze of fewer than three rows, and the solver refuses a maze whose entry
    is its exit. *)
Definition checked_maze (h w : Z) (en ex : coord) : result grid_maze :=
  if (h <=? 0) || (w <=? 0)
  then Raise (ValueError "dimensions must be positive")
  else fresh_maze h w en ex.

Definition checked_marking (m : grid_maze) : result (list coord) * grid_maze :=
  if rows m <? 3 then (Raise (ValueError "no room for the marking"), m)
  else two_cells m.

Definition checked_solver (m : grid_maze) : result (list coord) * grid_maze :=
  if bool_decide (start m = goal m) then (Raise (ValueError "no path"), m)
  else (Ok (elbow m), m).

Definition checked : MazeFiles := {|
  Maze := grid_maze;
  Maze_new := checked_maze;
  Maze_grid := masks;
  dfs_maze_generator := λ m _ _, keep m;
  bfs_shortest_path_solver := checked_solver;
  multiple_path_maze := Some keep;
  forty_two_marking := Some checked_marking
|}.

(** A maze without columns, a maze of two rows with marking, and a maze
    whose entry is its exit. *)
Definition cfg_flat : ConfigGen := mkConfigGen 0 5 (0, 0) (0, 4) 1 true false.
Definition cfg22_marked : ConfigGen := ConfigGen_defaults 2 2 (0, 0) (1, 1).
Definition cfg33_loop : ConfigGen := mkConfigGen 3 3 (1, 1) (1, 1) 1 true false.

(** The mazes the constructor builds for [cfg55], [cfg22_marked] and
    [cfg33_loop]. *)
Definition maze55 : grid_maze :=
  mkGridMaze 5 5 (replicate 5 (replicate 5 15)) (0, 0) (4, 4).
Definition maze22 : grid_maze :=
  mkGridMaze 2 2 (replicate 2 (replicate 2 15)) (0, 0) (1, 1).
Definition maze33 : grid_maze :=
  mkGridMaze 3 3 (replicate 3 (replicate 3 15)) (1, 1) (1, 1).

End Stub.

(** * Properties *)

(** ** The direction encoder *)

Section Encoder.

Implicit Types (p q : coord) (l : list coord) (out : list string).

Lemma step_letter_unit p q :
  unit_step p q →
  ∃ letter, step_letter p q = Ok (String letter "") ∧ move letter p = Some q.
Proof.
  destruct p as [x1 y1], q as [x2 y2].
  unfold unit_step, north, east, south, west, step_letter; simpl.
  intros [H | [H | [H | H]]]; injection H as -> ->.
  - exists "N"%char. split; [|done].
    replace (x1 - x1) with 0 by lia. replace (y1 - 1 - y1) with (-1) by lia. done.
  - exists "E"%char. split; [|done].
    replace (x1 + 1 - x1) with 1 by lia. replace (y1 - y1) with 0 by lia. done.
  - exists "S"%char. split; [|done].
    replace (x1 - x1) with 0 by lia. replace (y1 + 1 - y1) with 1 by lia. done.
  - exists "W"%char. split; [|done].
    replace (x1 - 1 - x1) with (-1) by lia. replace (y1 - y1) with 0 by lia. done.
Qed.

Lemma step_letter_other p q :
  ¬ unit_step p q → step_letter p q = Raise (ValueError (non_adjacent_msg p q)).
Proof.
  destruct p as [x1 y1], q as [x2 y2].
  unfold unit_step, north, east, south, west, step_letter; simpl. intros Hn.
  repeat match goal with
  | |- context [?a =? ?b] => destruct (Z.eqb_spec a b)
  end; simpl; try done; exfalso; apply Hn;
    first [ left; f_equal; lia
          | right; left; f_equal; lia
          | right; right; left; f_equal; lia
          | right; right; right; f_equal; lia ].
Qed.

Lemma walk_pairs_out pairs out :
  walk_pairs pairs out =
  match walk_pairs pairs [] with
  | Ok letters => Ok (out ++ letters)
  | Raise e => Raise e
  end.
Proof.
  revert out. induction pairs as [|[p q] rest IH]; intros out; simpl.
  - by rewrite app_nil_r.
  - destruct (step_letter p q) as [c|e]; [|done].
    rewrite (IH (out ++ [c])), (IH [c]).
    destruct (walk_pairs rest []); [|done]. by rewrite <-app_assoc.
Qed.

Lemma walk_pairs_cons p q pairs out :
  walk_pairs ((p, q) :: pairs) out =
  match step_letter p q with
  | Ok c => walk_pairs pairs (out ++ [c])
  | Raise e => Raise e
  end.
Proof. reflexivity. Qed.

Lemma append_empty_r (x : string) : x +:+ "" = x.
Proof.
  induction x as [|a x IH]; [done|].
  change (String a (x +:+ "") = String a x). by rewrite IH.
Qed.

Lemma concat_empty_cons (x : string) (xs : list string) :
  String.concat "" (x :: xs) = x +:+ String.concat "" xs.
Proof.
  destruct xs as [|y ys]; [|done].
  change (String.concat "" [x]) with x. change (String.concat "" []) with "".
  by rewrite append_empty_r.
Qed.

Lemma consecutive_head p q l : consecutive (p :: q :: l) p q.
Proof. by exists 0%nat. Qed.

Lemma consecutive_tail p l p' q' :
  consecutive l p' q' → consecutive (p :: l) p' q'.
Proof. intros [i [? ?]]. by exists (S i). Qed.

Lemma consecutive_inv p q l p' q' :
  consecutive (p :: q :: l) p' q' →
  (p' = p ∧ q' = q) ∨ consecutive (q :: l) p' q'.
Proof.
  intros [[|i] [H1 H2]]; simpl in *.
  - left. split; congruence.
  - right. by exists i.
Qed.

Lemma consecutive_short l p q : (length l < 2)%nat → ¬ consecutive l p q.
Proof.
  intros Hl [i [H1 H2]]. apply lookup_lt_Some in H2. lia.
Qed.

(** The loop either encodes a sequence of unit steps, and the letters replay
    to the sequence, or stops at a pair that is no unit step. *)
Lemma walk_pairs_cases l p :
  (adjacent_steps (p :: l)
   ∧ ∃ letters, walk_pairs (zip (p :: l) l) [] = Ok letters
                ∧ replay p (String.concat "" letters) = p :: l)
  ∨ (∃ p' q', consecutive (p :: l) p' q' ∧ ¬ unit_step p' q'
              ∧ walk_pairs (zip (p :: l) l) [] =
                Raise (ValueError (non_adjacent_msg p' q'))).
Proof.
  revert p. induction l as [|q l IH]; intros p.
  - left. split.
    + intros p' q' H. exfalso. revert H. apply consecutive_short. simpl; lia.
    + by exists [].
  - change (zip (p :: q :: l) (q :: l)) with ((p, q) :: zip (q :: l) l).
    destruct (decide (unit_step p q)) as [Hu|Hn].
    + destruct (step_letter_unit _ _ Hu) as (c & Hc & Hm).
      destruct (IH q) as [[Hadj (o & Ho & Hr)] | (p' & q' & Hc' & Hn' & Hw)].
      * left. split.
        { intros p' q' [[-> ->]|H]%consecutive_inv; auto. }
        exists (String c "" :: o). split.
        { by rewrite walk_pairs_cons, Hc, walk_pairs_out, Ho. }
        rewrite concat_empty_cons.
        change (String c "" +:+ String.concat "" o)
          with (String c (String.concat "" o)).
        simpl. by rewrite Hm, Hr.
      * right. exists p', q'. split; [by apply consecutive_tail|].
        split; [done|]. by rewrite walk_pairs_cons, Hc, walk_pairs_out, Hw.
    + right. exists p, q. split; [apply consecutive_head|].
      split; [done|]. by rewrite walk_pairs_cons, step_letter_other.
Qed.

Lemma encode_list_cases l :
  (adjacent_steps l
   ∧ ∃ s, encode_list l = Ok s ∧ replay_from_first l s = l)
  ∨ (∃ p q, consecutive l p q ∧ ¬ unit_step p q
            ∧ encode_list l = Raise (ValueError (non_adjacent_msg p q))).
Proof.
  unfold encode_list. case_bool_decide as Hlen.
  - left. split.
    + intros p q H. exfalso. revert H. by apply consecutive_short.
    + exists "". split; [done|].
      destruct l as [|p [|q l]]; simpl in *; [done | done | lia].
  - destruct l as [|p l]; [simpl in Hlen; lia|].
    change (drop 1 (p :: l)) with l.
    destruct (walk_pairs_cases l p) as [[Hadj (o & Ho & Hr)] | (p' & q' & Hc & Hn & Hw)].
    + left. split; [done|]. exists (String.concat "" o). by rewrite Ho.
    + right. exists p', q'. by rewrite Hw.
Qed.

End Encoder.

(** ** The generator *)

Section GeneratorProperties.
Context `{MF : MazeFiles}.

Implicit Types (w : world MF) (coords : list coord).

(** With a sequence supplied, [coords_to_directions] is the encoder and
    leaves the generator alone. *)
Lemma coords_to_directions_supplied coords w :
  coords_to_directions (Some coords) w = (encode_list coords, w).
Proof. reflexivity. Qed.

(** C7: for every supplied sequence of fewer than two coordinates, the empty
    one included, [coords_to_directions] returns the empty string and raises
    nothing. *)
Theorem coords_to_directions_short coords w :
  (length coords < 2)%nat →
  coords_to_directions (Some coords) w = (Ok "", w).
Proof.
  intros Hlen. rewrite coords_to_directions_supplied.
  unfold encode_list. by rewrite bool_decide_true.
Qed.

(** C5: for every sequence whose consecutive pairs are compass unit steps,
    [coords_to_directions] returns a string, and replaying that string
    letter by letter from the first coordinate gives back the sequence, so
    that the replay ends at its last coordinate. *)
Theorem coords_to_directions_round_trip coords w :
  adjacent_steps coords →
  ∃ s, coords_to_directions (Some coords) w = (Ok s, w)
       ∧ replay_from_first coords s = coords
       ∧ last (replay_from_first coords s) = last coords.
Proof.
  intros Hadj. rewrite coords_to_directions_supplied.
  destruct (encode_list_cases coords) as [[_ (s & Hs & Hr)] | (p & q & Hc & Hn & _)].
  - exists s. by rewrite Hs, Hr.
  - destruct Hn. by apply Hadj.
Qed.

(** Unfolding the methods down to the store. *)
Ltac run :=
  unfold generate, generate_marking, generate_braiding, solve_maze_path,
    coords_to_directions, grid, path, maze, forbidden_cells, call, read, lift,
    raise, assign_maze, assign_path, assign_forbidden, new_set, elems,
    mutate_set, marking_outcome, store_ok, __init__, mbind, mret, M_bind,
    M_ret in *;
  simpl in *.

(** Reading a set object right after it was created. *)
Ltac store_simpl :=
  repeat match goal with
  | H : context [<[?l:=?X]> ?h !!! ?l] |- _ =>
      rewrite (lookup_total_insert_eq h l X) in H
  | |- context [<[?l:=?X]> ?h !!! ?l] =>
      rewrite (lookup_total_insert_eq h l X)
  | |- context [<[?l:=?X]> ?h !! ?l] =>
      rewrite (lookup_insert_eq h l X)
  end.

Ltac run_cases := run; repeat (case_match; simplify_eq/=).

(** *** [coords_to_directions]: when it raises *)

(** C6: [coords_to_directions] raises the encoding error, a [ValueError],
    exactly when a sequence is supplied in which some consecutive pair is
    not a compass unit step.  With a sequence supplied it raises nothing
    else, and the error names such a pair.  On [(0,0), (2,0)] it raises the
    non-adjacent-step error. *)
Theorem coords_to_directions_raises_iff w :
  (∀ coords : option (list coord),
     (∃ msg, (coords_to_directions coords w).1 = Raise (ValueError msg))
     ↔ ∃ l p q, coords = Some l ∧ consecutive l p q ∧ ¬ unit_step p q)
  ∧ (∀ l : list coord,
       is_Raise (coords_to_directions (Some l) w).1
       ↔ ∃ p q, consecutive l p q ∧ ¬ unit_step p q
                ∧ (coords_to_directions (Some l) w).1 =
                  Raise (ValueError (non_adjacent_msg p q)))
  ∧ coords_to_directions (Some [(0, 0); (2, 0)]) w =
    (Raise (ValueError
       "Non-adjacent step in path for coordinates: (0, 0) and (2, 0)"), w).
Proof.
  split; [|split; [|done]].
  - intros [l|].
    + rewrite coords_to_directions_supplied. simpl. split.
      * intros [msg He].
        destruct (encode_list_cases l)
          as [[_ (s & Hs & _)] | (p & q & Hc & Hn & _)]; [congruence|].
        by exists l, p, q.
      * intros (l' & p & q & [= <-] & Hc & Hn).
        destruct (encode_list_cases l)
          as [[Hadj _] | (p' & q' & _ & _ & Hr)].
        -- destruct Hn. by apply Hadj.
        -- rewrite Hr. by eexists.
    + split.
      * intros [msg He]. run. by destruct (_path (self w)).
      * by intros (l & p & q & [=] & _).
  - intros l. rewrite coords_to_directions_supplied. simpl. split.
    + intros [e He].
      destruct (encode_list_cases l)
        as [[_ (s & Hs & _)] | (p & q & Hc & Hn & Hr)]; [congruence|].
      by exists p, q.
    + intros (p & q & _ & _ & Hr). by eexists.
Qed.

(** *** The invariant of the store *)

Lemma store_ok_init c store : store_ok (__init__ c store).
Proof. run. rewrite lookup_insert_eq. by eexists. Qed.

Lemma store_ok_generate w : store_ok w → store_ok (generate w).2.
Proof.
  intros Hw. run_cases; rewrite ?lookup_insert_eq; try done; by eexists.
Qed.

Lemma store_ok_solve_maze_path w : store_ok w → store_ok (solve_maze_path w).2.
Proof. intros Hw. by run_cases. Qed.

Lemma store_ok_mutate_set w l f : store_ok w → store_ok (mutate_set l f w).2.
Proof.
  intros [X HX]. run. destruct (decide (l = _forbidden (self w))) as [->|Hne].
  - rewrite lookup_alter_eq, HX. by eexists.
  - rewrite lookup_alter_ne by done. by eexists.
Qed.

Lemma store_ok_forbidden_cells w : store_ok w → store_ok (forbidden_cells w).2.
Proof.
  intros Hw. run. rewrite lookup_insert_ne; [done|].
  intros Heq. apply (is_fresh (dom (sets w))). rewrite Heq.
  by apply elem_of_dom.
Qed.

(** *** The accessors *)

(** C1: on every generator on which [solve_maze_path] has returned a path
    [p], the attribute [_path] holds [p], and reading the property [path]
    returns [None], not [p]. *)
Theorem path_after_solve w p w' :
  solve_maze_path w = (Ok p, w') →
  _path (self w') = Some p ∧ path w' = (Ok None, w').
Proof. intros H. by run_cases. Qed.

(** C2: on every generator on which [solve_maze_path] has returned,
    [coords_to_directions] called without a sequence raises the [TypeError]
    of [len(None)] and returns no string. *)
Theorem coords_to_directions_after_solve w p w' :
  solve_maze_path w = (Ok p, w') →
  coords_to_directions None w' = (Raise (TypeError len_of_None_msg), w').
Proof. intros H. by run_cases. Qed.

(** C3, as the code has it: read before [generate] has stored a maze, the
    properties [maze] and [grid] raise the [RuntimeError] of a maze not
    generated; read before a path is stored, [path] raises the
    [RuntimeError] of a path not solved; [forbidden_cells] has no such
    guard and returns a new set with the elements of the internal one,
    which is empty on a generator that has not generated yet. *)
Theorem accessors_before_stage w :
  (_maze (self w) = None →
     maze w = (Raise (RuntimeError maze_not_generated_msg), w)
     ∧ grid w = (Raise (RuntimeError maze_not_generated_msg), w))
  ∧ (_path (self w) = None →
     path w = (Raise (RuntimeError path_not_solved_msg), w))
  ∧ (∃ l w', forbidden_cells w = (Ok l, w')
             ∧ sets w' !! l = Some (sets w !!! _forbidden (self w)))
  ∧ (∀ c store, ∃ l w', forbidden_cells (__init__ c store) = (Ok l, w')
                        ∧ sets w' !! l = Some ∅).
Proof.
  split; [|split; [|split]].
  - intros H. run. by rewrite H.
  - intros H. run. by rewrite H.
  - run. eexists _, _. split; [done|]. simpl. by rewrite lookup_insert_eq.
  - intros c store. run. eexists _, _. split; [done|]. simpl.
    rewrite lookup_insert_eq. f_equal.
    by rewrite lookup_total_insert_eq.
Qed.

(** *** [generate] *)

(** C8: after every call of [generate] that returns, also one that follows
    a solve, no path is stored: [path] and [coords_to_directions] without a
    sequence raise the [RuntimeError] of a path not solved.  The same holds
    when [generate] raises after it has built the maze. *)
Theorem generate_resets_path w r w' :
  generate w = (r, w') →
  is_Ok r
  ∨ is_Ok (Maze_new (height (cfg (self w))) (width (cfg (self w)))
             (entry (cfg (self w))) (exit (cfg (self w)))) →
  _path (self w') = None
  ∧ path w' = (Raise (RuntimeError path_not_solved_msg), w')
  ∧ coords_to_directions None w' =
    (Raise (RuntimeError path_not_solved_msg), w').
Proof.
  intros H [[m ->] | [m0 Hm0]].
  - by run_cases.
  - run. rewrite Hm0 in H. by repeat (case_match; simplify_eq/=).
Qed.

(** C4: with [perfect = False] in a build without [multiple_path_maze],
    [generate] never returns a maze: it raises.  When the [Maze]
    constructor, the marking step and the carver have run without raising,
    the error is the [RuntimeError] that reports the missing routine, raised
    after the carved maze has been stored. *)
Theorem generate_without_braiding w :
  perfect (cfg (self w)) = false →
  multiple_path_maze = None →
  is_Raise (generate w).1
  ∧ ∀ m0 F m1 m2,
      Maze_new (height (cfg (self w))) (width (cfg (self w)))
        (entry (cfg (self w))) (exit (cfg (self w))) = Ok m0 →
      marking_outcome (cfg (self w)) m0 = (Ok F, m1) →
      dfs_maze_generator m1 F (seed (cfg (self w))) = (Ok (), m2) →
      (generate w).1 = Raise (RuntimeError multiple_path_missing_msg)
      ∧ _maze (self (generate w).2) = Some m2.
Proof.
  intros Hp Hb. split.
  - run. rewrite Hp, Hb. repeat (case_match; simplify_eq/=); by eexists.
  - intros m0 F m1 m2 H0 H1 H2. run. rewrite Hp, Hb, H0. simpl.
    repeat (case_match; simplify_eq/=); store_simpl; split; congruence.
Qed.

(** C9: with [marking_42 = True] in a build without [forty_two_marking],
    [generate] raises nothing on that account: it leaves an empty forbidden
    set, hands the carver the new maze and the empty set, and its outcome is
    that of the carver and of the braiding step. *)
Theorem generate_without_marking w m0 :
  forty_two_marking = None →
  marking_42 (cfg (self w)) = true →
  Maze_new (height (cfg (self w))) (width (cfg (self w)))
    (entry (cfg (self w))) (exit (cfg (self w))) = Ok m0 →
  ∃ r w', generate w = (r, w')
    ∧ sets w' !! _forbidden (self w') = Some ∅
    ∧ r = match dfs_maze_generator m0 ∅ (seed (cfg (self w))) with
          | (Raise e, _) => Raise e
          | (Ok _, m1) =>
              if perfect (cfg (self w)) then Ok m1
              else
                match multiple_path_maze with
                | None => Raise (RuntimeError multiple_path_missing_msg)
                | Some braid =>
                    match braid m1 with
                    | (Ok _, m2) => Ok m2
                    | (Raise e, _) => Raise e
                    end
                end
          end.
Proof.
  intros Hmark Hflag Hnew. run. rewrite Hmark, Hflag, Hnew. simpl.
  store_simpl.
  repeat (case_match; simplify_eq/=); eexists _, _;
    (split; [done|]); simpl; store_simpl; done.
Qed.

(** *** The forbidden set *)

Lemma fresh_not_allocated (store : gmap loc (gset coord)) :
  store !! fresh (dom store) = None.
Proof. apply not_elem_of_dom, is_fresh. Qed.

(** C10: [forbidden_cells] returns a new set object with the elements of
    the internal set.  Reading it changes no attribute of the generator and
    no set object that existed; whatever the caller then does to the
    returned set, the internal set keeps its elements and a later read of
    [forbidden_cells] returns the same elements as the first. *)
Theorem forbidden_cells_copy w :
  store_ok w →
  ∃ l w1, forbidden_cells w = (Ok l, w1)
    ∧ self w1 = self w
    ∧ sets w !! l = None
    ∧ l ≠ _forbidden (self w)
    ∧ sets w1 !! l = Some (sets w !!! _forbidden (self w))
    ∧ (∀ l', l' ≠ l → sets w1 !! l' = sets w !! l')
    ∧ ∀ f, ∃ w2, mutate_set l f w1 = (Ok (), w2)
        ∧ self w2 = self w
        ∧ sets w2 !! _forbidden (self w2) = sets w !! _forbidden (self w)
        ∧ ∃ l3 w3, forbidden_cells w2 = (Ok l3, w3)
                   ∧ sets w3 !! l3 = Some (sets w !!! _forbidden (self w)).
Proof.
  intros [X HX].
  assert (Hne : fresh (dom (sets w)) ≠ _forbidden (self w)).
  { intros Heq. pose proof (fresh_not_allocated (sets w)) as Hf.
    rewrite Heq in Hf. congruence. }
  run. eexists _, _. split; [done|]. simpl.
  split; [done|]. split; [apply fresh_not_allocated|]. split; [done|].
  split; [by store_simpl|].
  split; [by intros l' Hl'; rewrite lookup_insert_ne|].
  intros f. eexists. split; [done|]. simpl. split; [done|].
  split.
  - by rewrite lookup_alter_ne, lookup_insert_ne.
  - eexists _, _. split; [done|]. simpl. store_simpl. f_equal.
    by rewrite lookup_total_alter_ne, lookup_total_insert_ne.
Qed.

(** ** Further properties of the direction encoder *)

Lemma append_assoc_r (x y z : string) : (x +:+ y) +:+ z = x +:+ (y +:+ z).
Proof.
  induction x as [|a x IH]; [done|].
  change (String a ((x +:+ y) +:+ z) = String a (x +:+ (y +:+ z))).
  by rewrite IH.
Qed.

Lemma append_length (x y : string) :
  String.length (x +:+ y) = (String.length x + String.length y)%nat.
Proof.
  induction x as [|a x IH]; [done|].
  change (S (String.length (x +:+ y)) = S (String.length x + String.length y)).
  by rewrite IH.
Qed.

Lemma all_directions_append (x y : string) :
  all_directions (x +:+ y) = all_directions x && all_directions y.
Proof.
  induction x as [|a x IH]; [done|].
  change (is_direction a && all_directions (x +:+ y) =
          is_direction a && all_directions x && all_directions y).
  by rewrite IH, andb_assoc.
Qed.

Lemma concat_empty_app (o1 o2 : list string) :
  String.concat "" (o1 ++ o2) = String.concat "" o1 +:+ String.concat "" o2.
Proof.
  induction o1 as [|x o1 IH]; [done|].
  change ((x :: o1) ++ o2) with (x :: (o1 ++ o2)).
  by rewrite !concat_empty_cons, IH, append_assoc_r.
Qed.

Lemma walk_pairs_app (ps1 ps2 : list (coord * coord)) (out : list string) :
  walk_pairs (ps1 ++ ps2) out =
  match walk_pairs ps1 out with
  | Ok o => walk_pairs ps2 o
  | Raise e => Raise e
  end.
Proof.
  revert out. induction ps1 as [|[p q] ps1 IH]; intros out; [done|].
  change (((p, q) :: ps1) ++ ps2) with ((p, q) :: (ps1 ++ ps2)).
  rewrite !walk_pairs_cons. destruct (step_letter p q); [apply IH | done].
Qed.

(** The pairs of a sequence cut at one of its points. *)
Lemma zip_drop_app (l1 l2 : list coord) (p : coord) :
  zip (l1 ++ p :: l2) (drop 1 (l1 ++ p :: l2)) =
  zip (l1 ++ [p]) (drop 1 (l1 ++ [p])) ++ zip (p :: l2) l2.
Proof.
  induction l1 as [|a l1 IH]; [done|].
  destruct l1 as [|b l1]; [done|].
  change (zip ((a :: b :: l1) ++ p :: l2) (drop 1 ((a :: b :: l1) ++ p :: l2)))
    with ((a, b) :: zip ((b :: l1) ++ p :: l2) (drop 1 ((b :: l1) ++ p :: l2))).
  by rewrite IH.
Qed.

(** The length test of the encoder changes nothing: a sequence of fewer
    than two coordinates has no pair. *)
Lemma encode_list_walk (l : list coord) :
  encode_list l =
  match walk_pairs (zip l (drop 1 l)) [] with
  | Ok o => Ok (String.concat "" o)
  | Raise e => Raise e
  end.
Proof.
  unfold encode_list. case_bool_decide as Hlen; [|done].
  destruct l as [|p [|q l]]; simpl in *; [done | done | lia].
Qed.

Lemma encode_list_app (l1 l2 : list coord) (p : coord) :
  encode_list (l1 ++ p :: l2) =
  match encode_list (l1 ++ [p]) with
  | Raise e => Raise e
  | Ok s1 =>
      match encode_list (p :: l2) with
      | Raise e => Raise e
      | Ok s2 => Ok (s1 +:+ s2)
      end
  end.
Proof.
  rewrite !encode_list_walk, zip_drop_app, walk_pairs_app.
  change (drop 1 (p :: l2)) with l2.
  destruct (walk_pairs (zip (l1 ++ [p]) (drop 1 (l1 ++ [p]))) []) as [o1|e];
    [|done].
  rewrite walk_pairs_out.
  destruct (walk_pairs (zip (p :: l2) l2) []) as [o2|e]; [|done].
  by rewrite concat_empty_app.
Qed.

(** X1: the directions of a sequence cut at a point [p] are the directions up
    to [p] followed by the directions from [p] on; an error in the first
    part comes before one in the second. *)
Theorem coords_to_directions_app (l1 l2 : list coord) (p : coord) w :
  (coords_to_directions (Some (l1 ++ p :: l2)) w).1 =
  match (coords_to_directions (Some (l1 ++ [p])) w).1 with
  | Raise e => Raise e
  | Ok s1 =>
      match (coords_to_directions (Some (p :: l2)) w).1 with
      | Raise e => Raise e
      | Ok s2 => Ok (s1 +:+ s2)
      end
  end.
Proof. rewrite !coords_to_directions_supplied. apply encode_list_app. Qed.

Lemma is_direction_cases (a : ascii) :
  is_direction a = true →
  a = "N"%char ∨ a = "E"%char ∨ a = "S"%char ∨ a = "W"%char.
Proof.
  unfold is_direction. rewrite !orb_true_iff, !bool_decide_eq_true. tauto.
Qed.

Lemma step_letter_inv (p q : coord) (c : string) :
  step_letter p q = Ok c →
  ∃ a, c = String a "" ∧ is_direction a = true ∧ move a p = Some q.
Proof.
  destruct (decide (unit_step p q)) as [Hu|Hn].
  - destruct (step_letter_unit _ _ Hu) as (a & Ha & Hm).
    rewrite Ha. intros [= <-]. exists a. split; [done|]. split; [|done].
    unfold move in Hm. unfold is_direction.
    repeat case_decide; subst; done.
  - by rewrite step_letter_other.
Qed.

Lemma move_unit_step (a : ascii) (p q : coord) :
  move a p = Some q → unit_step p q.
Proof.
  unfold move, unit_step. repeat case_decide; intros [= <-]; tauto.
Qed.

Lemma move_step_letter (a : ascii) (p q : coord) :
  move a p = Some q → step_letter p q = Ok (String a "").
Proof.
  intros Hm. destruct (step_letter_unit p q) as (b & Hb & Hm');
    [by eapply move_unit_step|].
  rewrite Hb. do 2 f_equal.
  destruct p as [x y]. unfold move, north, east, south, west in *; simpl in *.
  repeat case_decide; simplify_eq/=; try done; lia.
Qed.

Lemma is_direction_move (a : ascii) (p : coord) :
  is_direction a = true → ∃ q, move a p = Some q.
Proof.
  intros [-> | [-> | [-> | ->]]]%is_direction_cases; by eexists.
Qed.

Lemma walk_pairs_letters (pairs : list (coord * coord)) (o : list string) :
  walk_pairs pairs [] = Ok o →
  String.length (String.concat "" o) = length pairs
  ∧ all_directions (String.concat "" o) = true.
Proof.
  revert o. induction pairs as [|[p q] pairs IH]; intros o.
  - by intros [= <-].
  - rewrite walk_pairs_cons. destruct (step_letter p q) as [c|e] eqn:Hc; [|done].
    rewrite walk_pairs_out.
    destruct (walk_pairs pairs []) as [o'|e] eqn:Ho; [|done].
    intros [= <-]. destruct (IH o' eq_refl) as [Hlen Hdir].
    destruct (step_letter_inv _ _ _ Hc) as (a & -> & Ha & _).
    rewrite concat_empty_cons.
    change (String a "" +:+ String.concat "" o')
      with (String a (String.concat "" o')).
    simpl. by rewrite Hlen, Hdir, Ha.
Qed.

(** X2: a direction string that is returned has one letter for each
    consecutive pair, hence one less than there are coordinates, and is
    made of the letters N, E, S and W only. *)
Theorem coords_to_directions_letters (l : list coord) (s : string) w :
  (coords_to_directions (Some l) w).1 = Ok s →
  String.length s = (length l - 1)%nat ∧ all_directions s = true.
Proof.
  rewrite coords_to_directions_supplied, encode_list_walk. simpl.
  destruct (walk_pairs _ _) as [o|e] eqn:Ho; [|done]. intros [= <-].
  destruct (walk_pairs_letters _ _ Ho) as [Hlen Hdir].
  rewrite Hlen, length_zip, length_drop. split; [lia | done].
Qed.

Lemma replay_head (p : coord) (s : string) :
  replay p s = p :: drop 1 (replay p s).
Proof. by destruct s. Qed.

Lemma walk_pairs_replay (s : string) (p : coord) :
  all_directions s = true →
  ∃ o, walk_pairs (zip (replay p s) (drop 1 (replay p s))) [] = Ok o
       ∧ String.concat "" o = s.
Proof.
  revert p. induction s as [|a s IH]; intros p Hs.
  - by exists [].
  - simpl in Hs. apply andb_true_iff in Hs as [Ha Hs].
    destruct (is_direction_move a p Ha) as [q Hq].
    destruct (IH q Hs) as (o & Ho & Hc).
    exists (String a "" :: o). split.
    + assert (Hr : replay p (String a s) = p :: replay q s)
        by (simpl; by rewrite Hq).
      rewrite Hr. pose proof (replay_head q s) as Hh.
      destruct (replay q s) as [|q' t]; [done|]. injection Hh as ->.
      change (zip (p :: q :: t) (drop 1 (p :: q :: t)))
        with ((p, q) :: zip (q :: t) (drop 1 (q :: t))).
      by rewrite walk_pairs_cons, (move_step_letter _ _ _ Hq), walk_pairs_out, Ho.
    + by rewrite concat_empty_cons, Hc.
Qed.

(** X3: encoding undoes replaying: for every string [s] of direction letters
    and every start [p], the cells visited by replaying [s] from [p] are
    encoded as [s] again. *)
Theorem coords_to_directions_replay (p : coord) (s : string) w :
  all_directions s = true →
  coords_to_directions (Some (replay p s)) w = (Ok s, w).
Proof.
  intros Hs. rewrite coords_to_directions_supplied, encode_list_walk.
  destruct (walk_pairs_replay s p Hs) as (o & -> & ->). done.
Qed.

Lemma encode_list_pair (p q : coord) :
  encode_list [p; q] =
  match step_letter p q with
  | Ok c => Ok c
  | Raise e => Raise e
  end.
Proof.
  rewrite encode_list_walk.
  change (zip [p; q] (drop 1 [p; q])) with [(p, q)].
  rewrite walk_pairs_cons. by destruct (step_letter p q).
Qed.

(** X4: the error names the first pair that is no unit step: when the
    sequence up to [p] is made of unit steps and the step from [p] to [q]
    is not one, the [ValueError] is the one for [p] and [q], whatever
    follows. *)
Theorem coords_to_directions_first_bad (l1 l2 : list coord) (p q : coord) w :
  adjacent_steps (l1 ++ [p]) →
  ¬ unit_step p q →
  coords_to_directions (Some (l1 ++ p :: q :: l2)) w =
  (Raise (ValueError (non_adjacent_msg p q)), w).
Proof.
  intros Hadj Hn. rewrite coords_to_directions_supplied. f_equal.
  rewrite encode_list_app.
  destruct (encode_list_cases (l1 ++ [p]))
    as [[_ (s1 & -> & _)] | (p' & q' & Hc & Hn' & _)].
  - change (p :: q :: l2) with ([p] ++ q :: l2).
    rewrite encode_list_app. change ([p] ++ [q]) with [p; q].
    by rewrite encode_list_pair, step_letter_other.
  - destruct Hn'. by apply Hadj.
Qed.

Lemma unit_step_manhattan (p q : coord) : unit_step p q ↔ manhattan p q = 1.
Proof.
  destruct p as [x1 y1], q as [x2 y2].
  unfold unit_step, manhattan, north, east, south, west; simpl. split.
  - intros [H | [H | [H | H]]]; injection H as -> ->; lia.
  - intros H.
    assert (x2 = x1 ∧ y2 = y1 - 1 ∨ x2 = x1 + 1 ∧ y2 = y1
            ∨ x2 = x1 ∧ y2 = y1 + 1 ∨ x2 = x1 - 1 ∧ y2 = y1)
      as [[-> ->] | [[-> ->] | [[-> ->] | [-> ->]]]] by lia; tauto.
Qed.

(** X5: a supplied sequence is encoded exactly when every two consecutive
    coordinates are one step apart in the Manhattan distance: a repeated
    point (distance 0), a diagonal or a jump (distance 2 or more) makes the
    call raise. *)
Theorem coords_to_directions_ok_iff (l : list coord) w :
  is_Ok (coords_to_directions (Some l) w).1
  ↔ ∀ p q, consecutive l p q → manhattan p q = 1.
Proof.
  rewrite coords_to_directions_supplied. simpl. split.
  - intros [s Hs] p q Hc. apply unit_step_manhattan.
    destruct (encode_list_cases l) as [[Hadj _] | (p' & q' & _ & _ & Hr)];
      [by apply Hadj | congruence].
  - intros H.
    destruct (encode_list_cases l)
      as [[_ (s & Hs & _)] | (p' & q' & Hc & Hn & _)]; [by exists s|].
    destruct Hn. by apply unit_step_manhattan, H.
Qed.

Lemma step_letter_back (p q : coord) (a : ascii) :
  step_letter p q = Ok (String a "") →
  step_letter q p = Ok (String (opposite a) "").
Proof.
  intros (b & [= <-] & Ha & Hm)%step_letter_inv.
  apply move_step_letter.
  destruct p as [x y].
  apply is_direction_cases in Ha as [-> | [-> | [-> | ->]]];
    injection Hm as <-; unfold opposite, move, north, east, south, west;
    simpl; f_equal; f_equal; lia.
Qed.

Lemma encode_list_reverse (l : list coord) (s : string) :
  encode_list l = Ok s → encode_list (reverse l) = Ok (way_back s).
Proof.
  revert s. induction l as [|p l IH]; intros s.
  - by intros [= <-].
  - destruct l as [|q l]; [by intros [= <-]|].
    change (p :: q :: l) with ([p] ++ q :: l).
    rewrite encode_list_app. change ([p] ++ [q]) with [p; q].
    rewrite encode_list_pair.
    destruct (step_letter p q) as [c|e] eqn:Hc; [|done].
    destruct (encode_list (q :: l)) as [s2|e] eqn:Hs2; [|done].
    intros [= <-].
    destruct (step_letter_inv _ _ _ Hc) as (a & -> & _ & _).
    change (reverse ([p] ++ q :: l)) with (reverse (p :: q :: l)).
    rewrite reverse_cons.
    pose proof (IH s2 eq_refl) as IH'. rewrite reverse_cons in IH' |- *.
    rewrite <-app_assoc. change ([q] ++ [p]) with (q :: [p]).
    rewrite encode_list_app, IH'. change (q :: [p]) with [q; p].
    by rewrite encode_list_pair, (step_letter_back _ _ _ Hc).
Qed.

(** X6: a sequence that is encoded is also encoded when walked backwards,
    and the string is then the way back: the opposite letters in reverse
    order. *)
Theorem coords_to_directions_reverse (l : list coord) (s : string) w :
  (coords_to_directions (Some l) w).1 = Ok s →
  coords_to_directions (Some (reverse l)) w = (Ok (way_back s), w).
Proof.
  rewrite !coords_to_directions_supplied. simpl. intros Hs.
  by rewrite (encode_list_reverse _ _ Hs).
Qed.

Lemma step_letter_translate (d p q : coord) (c : string) :
  step_letter p q = Ok c →
  step_letter (translate d p) (translate d q) = Ok c.
Proof.
  destruct d as [dx dy], p as [x1 y1], q as [x2 y2].
  unfold step_letter, translate; simpl.
  replace (x2 + dx - (x1 + dx)) with (x2 - x1) by lia.
  replace (y2 + dy - (y1 + dy)) with (y2 - y1) by lia.
  by repeat case_match.
Qed.

Lemma walk_pairs_translate (d p : coord) (l : list coord)
    (out o : list string) :
  walk_pairs (zip (p :: l) l) out = Ok o →
  walk_pairs (zip (translate d p :: (translate d <$> l)) (translate d <$> l))
    out = Ok o.
Proof.
  revert p out. induction l as [|q l IH]; intros p out; [done|].
  change (zip (p :: q :: l) (q :: l)) with ((p, q) :: zip (q :: l) l).
  change (zip (translate d p :: (translate d <$> q :: l))
            (translate d <$> q :: l))
    with ((translate d p, translate d q)
            :: zip (translate d q :: (translate d <$> l)) (translate d <$> l)).
  rewrite !walk_pairs_cons.
  destruct (step_letter p q) as [c|e] eqn:Hc; [|done].
  rewrite (step_letter_translate _ _ _ _ Hc). apply IH.
Qed.

(** X7: the direction string depends on the steps only, not on where the
    sequence lies: a sequence that is encoded is encoded to the same string
    after every coordinate is moved by the same vector. *)
Theorem coords_to_directions_translate (d : coord) (l : list coord)
    (s : string) w :
  (coords_to_directions (Some l) w).1 = Ok s →
  coords_to_directions (Some (translate d <$> l)) w = (Ok s, w).
Proof.
  rewrite !coords_to_directions_supplied, !encode_list_walk. simpl.
  intros Hs. f_equal. destruct l as [|p l]; [done|].
  change (drop 1 (p :: l)) with l in Hs.
  change (drop 1 (translate d <$> p :: l)) with (translate d <$> l).
  change (translate d <$> p :: l)
    with (translate d p :: (translate d <$> l)).
  destruct (walk_pairs (zip (p :: l) l) []) as [o|e] eqn:Ho; [|done].
  by rewrite (walk_pairs_translate _ _ _ _ _ Ho).
Qed.

(** ** Further properties of the generator *)

(** X8: when the [Maze] constructor raises, [generate] raises the same
    error before it has assigned anything: the maze, the path and the
    forbidden set of the previous run stay in place. *)
Theorem generate_constructor_raises w e :
  Maze_new (height (cfg (self w))) (width (cfg (self w)))
    (entry (cfg (self w))) (exit (cfg (self w))) = Raise e →
  generate w = (Raise e, w).
Proof. intros H. run. by rewrite H. Qed.

(** X9: with [marking_42 = False] the marking routine is not run, whether
    it is there or not: [generate] leaves an empty forbidden set, also after
    a run that had marked cells, and hands the carver the new maze and the
    empty set. *)
Theorem generate_marking_disabled w m0 :
  marking_42 (cfg (self w)) = false →
  Maze_new (height (cfg (self w))) (width (cfg (self w)))
    (entry (cfg (self w))) (exit (cfg (self w))) = Ok m0 →
  ∃ w', generate w = (carving_outcome (cfg (self w)) m0 ∅, w')
        ∧ sets w' !! _forbidden (self w') = Some ∅
        ∧ _path (self w') = None.
Proof.
  intros Hflag Hnew. unfold carving_outcome. run. rewrite Hflag, Hnew. simpl.
  store_simpl.
  repeat (case_match; simplify_eq/=); eexists; (split; [done|]); simpl;
    store_simpl; done.
Qed.

(** X10: with [marking_42 = True] and the marking routine there, the
    forbidden set that [generate] leaves holds exactly the cells the routine
    returned for the new maze, and the carver is run with that set on the
    maze as the routine left it. *)
Theorem generate_marking_enabled w mark m0 cells m1 :
  marking_42 (cfg (self w)) = true →
  forty_two_marking = Some mark →
  Maze_new (height (cfg (self w))) (width (cfg (self w)))
    (entry (cfg (self w))) (exit (cfg (self w))) = Ok m0 →
  mark m0 = (Ok cells, m1) →
  ∃ w', generate w =
          (carving_outcome (cfg (self w)) m1 (list_to_set cells), w')
        ∧ sets w' !! _forbidden (self w') = Some (list_to_set cells)
        ∧ _path (self w') = None.
Proof.
  intros Hflag Hmark Hnew Hcells. unfold carving_outcome. run.
  rewrite Hflag, Hmark, Hnew. simpl. rewrite Hcells. simpl. store_simpl.
  repeat (case_match; simplify_eq/=); eexists; (split; [done|]); simpl;
    store_simpl; done.
Qed.

(** X11: when the marking routine raises, [generate] raises the same error
    without running the carver; the new maze is stored as the routine left
    it, no path is stored and the forbidden set is empty. *)
Theorem generate_marking_raises w mark m0 e m1 :
  marking_42 (cfg (self w)) = true →
  forty_two_marking = Some mark →
  Maze_new (height (cfg (self w))) (width (cfg (self w)))
    (entry (cfg (self w))) (exit (cfg (self w))) = Ok m0 →
  mark m0 = (Raise e, m1) →
  ∃ w', generate w = (Raise e, w')
        ∧ _maze (self w') = Some m1
        ∧ _path (self w') = None
        ∧ sets w' !! _forbidden (self w') = Some ∅.
Proof.
  intros Hflag Hmark Hnew Hraise. run.
  rewrite Hflag, Hmark, Hnew. simpl. rewrite Hraise. simpl.
  eexists. split; [done|]. simpl. by store_simpl.
Qed.

(** X12: the maze that [generate] returns is the one it has stored: right
    after, [maze] returns that maze and [grid] its grid. *)
Theorem generate_returns_stored_maze w m w' :
  generate w = (Ok m, w') →
  _maze (self w') = Some m
  ∧ maze w' = (Ok m, w')
  ∧ grid w' = (Ok (Maze_grid m), w').
Proof. intros H. by run_cases. Qed.

(** X13: a [generate] that raises after the [Maze] constructor has returned
    leaves a maze stored: [maze] then returns that unfinished maze and does
    not raise. *)
Theorem generate_failure_stores_maze w e w' m0 :
  generate w = (Raise e, w') →
  Maze_new (height (cfg (self w))) (width (cfg (self w)))
    (entry (cfg (self w))) (exit (cfg (self w))) = Ok m0 →
  ∃ m, _maze (self w') = Some m ∧ maze w' = (Ok m, w').
Proof.
  intros H Hnew. run. rewrite Hnew in H.
  repeat (case_match; simplify_eq/=); by eexists.
Qed.

(** X14: [solve_maze_path] on a generator that has no maze raises the
    [RuntimeError] of the property [maze], without running the solver and
    without changing the generator. *)
Theorem solve_before_generate w :
  _maze (self w) = None →
  solve_maze_path w = (Raise (RuntimeError maze_not_generated_msg), w).
Proof. intros H. run. by rewrite H. Qed.

(** X15: when the solver raises, [solve_maze_path] raises the same error and
    assigns no path: the path stored before, if any, is still stored. *)
Theorem solve_failure_keeps_path w m e m' :
  _maze (self w) = Some m →
  bfs_shortest_path_solver m = (Raise e, m') →
  ∃ w', solve_maze_path w = (Raise e, w')
        ∧ _path (self w') = _path (self w)
        ∧ _maze (self w') = Some m'.
Proof.
  intros Hm Hs. run. rewrite Hm. simpl. rewrite Hs. by eexists.
Qed.

(** X16: after a [generate] that returned the maze [m], [solve_maze_path]
    runs the solver on [m]: it returns what the solver returns and raises
    what the solver raises. *)
Theorem solve_after_generate w m w1 :
  generate w = (Ok m, w1) →
  (solve_maze_path w1).1 = (bfs_shortest_path_solver m).1.
Proof.
  intros H.
  assert (Hm : _maze (self w1) = Some m) by (by run_cases).
  clear H. run. rewrite Hm. simpl.
  by destruct (bfs_shortest_path_solver m) as [[p|e] m'].
Qed.

(** X17: the properties [maze], [grid] and [path] and the method
    [coords_to_directions] change nothing; with a sequence supplied, what
    [coords_to_directions] returns does not depend on the generator. *)
Theorem readers_leave_state w (coords : option (list coord)) :
  (maze w).2 = w ∧ (grid w).2 = w ∧ (path w).2 = w
  ∧ (coords_to_directions coords w).2 = w
  ∧ ∀ (l : list coord) (w2 : world MF),
      (coords_to_directions (Some l) w).1 = (coords_to_directions (Some l) w2).1.
Proof.
  repeat split; try done; run; repeat (case_match; simplify_eq/=); done.
Qed.

(** *** Set objects that exist are left alone *)

Lemma lookup_new_set (store : gmap loc (gset coord)) (X : gset coord) (l : loc) :
  is_Some (store !! l) →
  <[fresh (dom store) := X]> store !! l = store !! l
  ∧ is_Some (<[fresh (dom store) := X]> store !! l)
  ∧ fresh (dom store) ≠ l.
Proof.
  intros Hl.
  assert (Hne : fresh (dom store) ≠ l).
  { intros Heq. pose proof (fresh_not_allocated store) as Hf.
    rewrite Heq in Hf. rewrite Hf in Hl. by destruct Hl. }
  by rewrite lookup_insert_ne.
Qed.

Lemma generate_keeps_sets w (l : loc) :
  is_Some (sets w !! l) → sets (generate w).2 !! l = sets w !! l.
Proof.
  intros Hl. destruct (lookup_new_set (sets w) ∅ l Hl) as (E1 & S1 & _).
  run_cases;
    rewrite ?(proj1 (lookup_new_set _ _ l S1)), ?E1; done.
Qed.

(** X18: [generate] binds [_forbidden] to new set objects and changes no set
    object that exists: a copy taken from [forbidden_cells] before a
    regeneration keeps the elements it had, and the set the generator uses
    afterwards is another object. *)
Theorem generate_keeps_copies w (l : loc) w1 r w2 :
  forbidden_cells w = (Ok l, w1) →
  generate w1 = (r, w2) →
  sets w2 !! l = Some (sets w !!! _forbidden (self w))
  ∧ (is_Ok (Maze_new (height (cfg (self w))) (width (cfg (self w)))
              (entry (cfg (self w))) (exit (cfg (self w)))) →
     _forbidden (self w2) ≠ l).
Proof.
  intros Hf Hg.
  assert (Hl : sets w1 !! l = Some (sets w !!! _forbidden (self w))
               ∧ cfg (self w1) = cfg (self w)).
  { run. simplify_eq/=. by store_simpl. }
  destruct Hl as [Hl Hc].
  assert (Hs : is_Some (sets w1 !! l)) by (by eexists).
  split.
  - pose proof (generate_keeps_sets w1 l Hs) as Hk. rewrite Hg in Hk.
    simpl in Hk. by rewrite Hk.
  - rewrite <-Hc. intros [m0 Hm0]. clear Hf Hl Hc.
    destruct (lookup_new_set (sets w1) ∅ l Hs) as (E1 & S1 & N1).
    run. rewrite Hm0 in Hg. simpl in Hg.
    repeat (case_match; simplify_eq/=); try done;
      by apply (lookup_new_set _ ∅ l S1).
Qed.

(** X19: a new generator has no maze and no path, and a forbidden set of its
    own: an empty set object that did not exist before.  Creating it
    changes no set object that exists, and the next generator created gets
    another set object. *)
Theorem init_own_forbidden_set (c c2 : ConfigGen)
    (store : gmap loc (gset coord)) :
  cfg (self (__init__ c store)) = c
  ∧ _maze (self (__init__ c store)) = None
  ∧ _path (self (__init__ c store)) = None
  ∧ store !! _forbidden (self (__init__ c store)) = None
  ∧ sets (__init__ c store) !! _forbidden (self (__init__ c store)) = Some ∅
  ∧ (∀ l, is_Some (store !! l) → sets (__init__ c store) !! l = store !! l)
  ∧ _forbidden (self (__init__ c2 (sets (__init__ c store))))
    ≠ _forbidden (self (__init__ c store)).
Proof.
  run. repeat split.
  - apply fresh_not_allocated.
  - by store_simpl.
  - intros l Hl. by apply lookup_new_set.
  - apply (lookup_new_set (<[fresh (dom store):=∅]> store) ∅).
    rewrite lookup_insert_eq. by eexists.
Qed.

End GeneratorProperties.

(** ** The theorems at concrete generators *)

Section Examples.
Import Stub.

Lemma path_after_solve_witness :
  solve_maze_path generated55 = (Ok route55, solved55)
  ∧ _path (self solved55) = Some route55
  ∧ path solved55 = (Ok None, solved55).
Proof.
  split; [vm_compute; reflexivity|].
  apply (path_after_solve generated55). vm_compute; reflexivity.
Defined.

Lemma coords_to_directions_after_solve_witness :
  solve_maze_path generated55 = (Ok route55, solved55)
  ∧ coords_to_directions None solved55 =
    (Raise (TypeError "object of type 'NoneType' has no len()"), solved55).
Proof.
  split; [vm_compute; reflexivity|].
  apply (coords_to_directions_after_solve generated55 route55).
  vm_compute; reflexivity.
Defined.

Lemma accessors_before_stage_witness :
  _maze (self (@__init__ bare cfg55 ∅)) = None
  ∧ _path (self (@__init__ bare cfg55 ∅)) = None
  ∧ (maze (@__init__ bare cfg55 ∅)).1 = Raise (RuntimeError maze_not_generated_msg)
  ∧ (path (@__init__ bare cfg55 ∅)).1 = Raise (RuntimeError path_not_solved_msg).
Proof.
  destruct (accessors_before_stage (@__init__ bare cfg55 ∅)) as (Hm & Hp & _).
  split; [reflexivity|]. split; [reflexivity|]. split.
  - destruct (Hm eq_refl) as [-> _]. reflexivity.
  - rewrite (Hp eq_refl). reflexivity.
Defined.

(** C3 as stated fails on [forbidden_cells]: on a generator that has never
    generated, reading it raises nothing and returns an empty set. *)
Lemma forbidden_cells_before_generate :
  ∃ l w', forbidden_cells (@__init__ bare cfg55 ∅) = (Ok l, w')
          ∧ sets w' !! l = Some ∅
          ∧ ¬ is_Raise (forbidden_cells (@__init__ bare cfg55 ∅)).1.
Proof.
  eexists _, _. split; [vm_compute; reflexivity|].
  split; [vm_compute; reflexivity|].
  intros [e He]. vm_compute in He. discriminate.
Qed.

Lemma generate_without_braiding_witness :
  perfect cfg55_braided = false
  ∧ @multiple_path_maze bare = None
  ∧ (generate (@__init__ bare cfg55_braided ∅)).1 =
    Raise (RuntimeError multiple_path_missing_msg).
Proof.
  split; [reflexivity|]. split; [reflexivity|].
  destruct (generate_without_braiding (@__init__ bare cfg55_braided ∅)
              eq_refl eq_refl) as [_ H].
  edestruct H as [Hr _]; [vm_compute; reflexivity.. | exact Hr].
Defined.

Lemma coords_to_directions_round_trip_witness :
  adjacent_steps [(0, 0); (1, 0); (1, 1); (0, 1); (0, 0)]
  ∧ ∃ s, coords_to_directions (Some [(0, 0); (1, 0); (1, 1); (0, 1); (0, 0)])
           generated55 = (Ok s, generated55)
         ∧ replay_from_first [(0, 0); (1, 0); (1, 1); (0, 1); (0, 0)] s =
           [(0, 0); (1, 0); (1, 1); (0, 1); (0, 0)]
         ∧ last (replay_from_first [(0, 0); (1, 0); (1, 1); (0, 1); (0, 0)] s) =
           last [(0, 0); (1, 0); (1, 1); (0, 1); (0, 0)].
Proof.
  assert (H : adjacent_steps [(0, 0); (1, 0); (1, 1); (0, 1); (0, 0)]).
  { intros p q [i [H1 H2]].
    do 4 (destruct i as [|i];
          [simpl in H1, H2; injection H1 as <-; injection H2 as <-;
           vm_compute; tauto|]).
    destruct i; discriminate. }
  split; [exact H|].
  exact (coords_to_directions_round_trip _ generated55 H).
Defined.

Lemma coords_to_directions_short_witness :
  (length [(3, 4)] < 2)%nat
  ∧ coords_to_directions (Some [(3, 4)]) generated55 = (Ok "", generated55)
  ∧ coords_to_directions (Some []) generated55 = (Ok "", generated55).
Proof.
  split; [simpl; lia|]. split.
  - apply (coords_to_directions_short [(3, 4)] generated55). simpl; lia.
  - apply (coords_to_directions_short [] generated55). simpl; lia.
Defined.

Lemma generate_resets_path_witness :
  _path (self solved55) = Some route55
  ∧ (∃ m w', generate solved55 = (Ok m, w')
      ∧ _path (self w') = None
      ∧ path w' = (Raise (RuntimeError path_not_solved_msg), w')
      ∧ coords_to_directions None w' =
        (Raise (RuntimeError path_not_solved_msg), w')).
Proof.
  split; [vm_compute; reflexivity|].
  eexists _, _. split; [vm_compute; reflexivity|].
  eapply (generate_resets_path solved55); [vm_compute; reflexivity|].
  left. by eexists.
Defined.

Lemma generate_without_marking_witness :
  @forty_two_marking bare = None
  ∧ marking_42 cfg55_marked = true
  ∧ ∃ m w', generate (@__init__ bare cfg55_marked ∅) = (Ok m, w')
            ∧ sets w' !! _forbidden (self w') = Some ∅.
Proof.
  split; [reflexivity|]. split; [reflexivity|].
  edestruct (generate_without_marking (@__init__ bare cfg55_marked ∅))
    as (r & w' & Hg & Hf & Hr); [reflexivity.. | vm_compute; reflexivity |].
  vm_compute in Hr. subst r. eexists _, w'. split; [exact Hg | exact Hf].
Defined.

Lemma forbidden_cells_copy_witness :
  store_ok marked55
  ∧ sets marked55 !! _forbidden (self marked55) = Some {[(1, 1); (2, 1)]}
  ∧ ∃ l w1, forbidden_cells marked55 = (Ok l, w1)
      ∧ sets w1 !! l = Some {[(1, 1); (2, 1)]}
      ∧ ∃ w2, mutate_set l (λ _, ∅) w1 = (Ok (), w2)
          ∧ sets w2 !! l = Some ∅
          ∧ sets w2 !! _forbidden (self w2) = Some {[(1, 1); (2, 1)]}.
Proof.
  assert (Hok : store_ok marked55) by (eexists; vm_compute; reflexivity).
  assert (HX : sets marked55 !! _forbidden (self marked55)
               = Some {[(1, 1); (2, 1)]}) by (vm_compute; reflexivity).
  split; [exact Hok|]. split; [exact HX|].
  destruct (forbidden_cells_copy marked55 Hok)
    as (l & w1 & Hf & Hs & Hnew & Hne & Hl & Hframe & Hmut).
  exists l, w1. split; [exact Hf|].
  rewrite (lookup_total_correct _ _ _ HX) in Hl. split; [exact Hl|].
  destruct (Hmut (λ _, ∅)) as (w2 & Hm & Hs2 & Hint & _).
  exists w2. split; [exact Hm|]. split.
  - unfold mutate_set in Hm. injection Hm as <-. simpl.
    by rewrite lookup_alter_eq, Hl.
  - by rewrite Hint.
Defined.

Lemma coords_to_directions_letters_witness :
  (coords_to_directions (Some route55) generated55).1 = Ok "EEEESSSS"
  ∧ String.length "EEEESSSS" = (length route55 - 1)%nat
  ∧ all_directions "EEEESSSS" = true.
Proof.
  assert (H : (coords_to_directions (Some route55) generated55).1
              = Ok "EEEESSSS") by (vm_compute; reflexivity).
  split; [exact H|].
  exact (coords_to_directions_letters route55 "EEEESSSS" generated55 H).
Defined.

Lemma coords_to_directions_replay_witness :
  all_directions "ESWN" = true
  ∧ coords_to_directions (Some [(0, 0); (1, 0); (1, 1); (0, 1); (0, 0)])
      generated55 = (Ok "ESWN", generated55).
Proof.
  split; [reflexivity|].
  exact (coords_to_directions_replay (0, 0) "ESWN" generated55 eq_refl).
Defined.

Lemma coords_to_directions_first_bad_witness :
  adjacent_steps ([(0, 0)] ++ [(1, 0)])
  ∧ ¬ unit_step (1, 0) (3, 0)
  ∧ coords_to_directions (Some [(0, 0); (1, 0); (3, 0); (3, 1); (9, 9)])
      generated55 =
    (Raise (ValueError
       "Non-adjacent step in path for coordinates: (1, 0) and (3, 0)"),
     generated55).
Proof.
  assert (Ha : adjacent_steps ([(0, 0)] ++ [(1, 0)])).
  { intros p q [i [H1 H2]].
    destruct i as [|i];
      [simpl in H1, H2; injection H1 as <-; injection H2 as <-;
       vm_compute; tauto|].
    destruct i; discriminate. }
  assert (Hn : ¬ unit_step (1, 0) (3, 0)).
  { intros H. vm_compute in H. destruct H as [H|[H|[H|H]]]; discriminate H. }
  split; [exact Ha|]. split; [exact Hn|].
  exact (coords_to_directions_first_bad [(0, 0)] [(3, 1); (9, 9)]
           (1, 0) (3, 0) generated55 Ha Hn).
Defined.

Lemma coords_to_directions_reverse_witness :
  (coords_to_directions (Some route55) generated55).1 = Ok "EEEESSSS"
  ∧ coords_to_directions (Some (reverse route55)) generated55 =
    (Ok "NNNNWWWW", generated55).
Proof.
  assert (H : (coords_to_directions (Some route55) generated55).1
              = Ok "EEEESSSS") by (vm_compute; reflexivity).
  split; [exact H|].
  exact (coords_to_directions_reverse route55 "EEEESSSS" generated55 H).
Defined.

Lemma coords_to_directions_translate_witness :
  (coords_to_directions (Some route55) generated55).1 = Ok "EEEESSSS"
  ∧ coords_to_directions (Some (translate (10, -3) <$> route55)) generated55 =
    (Ok "EEEESSSS", generated55).
Proof.
  assert (H : (coords_to_directions (Some route55) generated55).1
              = Ok "EEEESSSS") by (vm_compute; reflexivity).
  split; [exact H|].
  exact (coords_to_directions_translate (10, -3) route55 "EEEESSSS"
           generated55 H).
Defined.

Lemma generate_constructor_raises_witness :
  @Maze_new checked (height cfg_flat) (width cfg_flat) (entry cfg_flat)
    (exit cfg_flat) = Raise (ValueError "dimensions must be positive")
  ∧ generate (@__init__ checked cfg_flat ∅) =
    (Raise (ValueError "dimensions must be positive"),
     @__init__ checked cfg_flat ∅).
Proof.
  split; [reflexivity|].
  apply (generate_constructor_raises (@__init__ checked cfg_flat ∅)).
  reflexivity.
Defined.

Lemma generate_marking_disabled_witness :
  marking_42 cfg55 = false
  ∧ ∃ w', generate (@__init__ full cfg55 ∅) = (Ok maze55, w')
          ∧ sets w' !! _forbidden (self w') = Some ∅
          ∧ _path (self w') = None.
Proof.
  split; [reflexivity|].
  exact (generate_marking_disabled (@__init__ full cfg55 ∅) maze55
           eq_refl eq_refl).
Defined.

Lemma generate_marking_enabled_witness :
  marking_42 cfg55_marked = true
  ∧ @forty_two_marking full = Some two_cells
  ∧ ∃ w', generate (@__init__ full cfg55_marked ∅) = (Ok maze55, w')
          ∧ sets w' !! _forbidden (self w') = Some (list_to_set [(1, 1); (2, 1)])
          ∧ _path (self w') = None.
Proof.
  split; [reflexivity|]. split; [reflexivity|].
  exact (generate_marking_enabled (@__init__ full cfg55_marked ∅) two_cells
           maze55 [(1, 1); (2, 1)] maze55 eq_refl eq_refl eq_refl eq_refl).
Defined.

Lemma generate_marking_raises_witness :
  checked_marking maze22 = (Raise (ValueError "no room for the marking"), maze22)
  ∧ ∃ w', generate (@__init__ checked cfg22_marked ∅) =
            (Raise (ValueError "no room for the marking"), w')
          ∧ _maze (self w') = Some maze22
          ∧ _path (self w') = None
          ∧ sets w' !! _forbidden (self w') = Some ∅.
Proof.
  split; [reflexivity|].
  exact (generate_marking_raises (@__init__ checked cfg22_marked ∅)
           checked_marking maze22 _ maze22 eq_refl eq_refl eq_refl eq_refl).
Defined.

Lemma generate_returns_stored_maze_witness :
  generate (@__init__ bare cfg55 ∅) = (Ok maze55, generated55)
  ∧ _maze (self generated55) = Some maze55
  ∧ maze generated55 = (Ok maze55, generated55)
  ∧ grid generated55 = (Ok (masks maze55), generated55).
Proof.
  assert (H : generate (@__init__ bare cfg55 ∅) = (Ok maze55, generated55))
    by (vm_compute; reflexivity).
  split; [exact H|].
  exact (generate_returns_stored_maze _ _ _ H).
Defined.

Lemma generate_failure_stores_maze_witness :
  (generate (@__init__ bare cfg55_braided ∅)).1 =
    Raise (RuntimeError multiple_path_missing_msg)
  ∧ ∃ m, _maze (self (generate (@__init__ bare cfg55_braided ∅)).2) = Some m
         ∧ maze (generate (@__init__ bare cfg55_braided ∅)).2 =
           (Ok m, (generate (@__init__ bare cfg55_braided ∅)).2).
Proof.
  split; [vm_compute; reflexivity|].
  apply (generate_failure_stores_maze (@__init__ bare cfg55_braided ∅)
           (RuntimeError multiple_path_missing_msg) _ maze55);
    vm_compute; reflexivity.
Defined.

Lemma solve_before_generate_witness :
  _maze (self (@__init__ bare cfg55 ∅)) = None
  ∧ solve_maze_path (@__init__ bare cfg55 ∅) =
    (Raise (RuntimeError maze_not_generated_msg), @__init__ bare cfg55 ∅).
Proof.
  split; [reflexivity|].
  exact (solve_before_generate (@__init__ bare cfg55 ∅) eq_refl).
Defined.

Lemma solve_failure_keeps_path_witness :
  _maze (self (generate (@__init__ checked cfg33_loop ∅)).2) = Some maze33
  ∧ checked_solver maze33 = (Raise (ValueError "no path"), maze33)
  ∧ ∃ w', solve_maze_path (generate (@__init__ checked cfg33_loop ∅)).2 =
            (Raise (ValueError "no path"), w')
          ∧ _path (self w') =
            _path (self (generate (@__init__ checked cfg33_loop ∅)).2)
          ∧ _maze (self w') = Some maze33.
Proof.
  assert (H : _maze (self (generate (@__init__ checked cfg33_loop ∅)).2)
              = Some maze33) by (vm_compute; reflexivity).
  split; [exact H|]. split; [reflexivity|].
  exact (@solve_failure_keeps_path checked _ maze33 _ maze33 H eq_refl).
Defined.

Lemma solve_after_generate_witness :
  generate (@__init__ bare cfg55 ∅) = (Ok maze55, generated55)
  ∧ (solve_maze_path generated55).1 = Ok route55.
Proof.
  assert (H : generate (@__init__ bare cfg55 ∅) = (Ok maze55, generated55))
    by (vm_compute; reflexivity).
  split; [exact H|].
  exact (solve_after_generate _ _ _ H).
Defined.

Lemma generate_keeps_copies_witness :
  sets marked55 !! _forbidden (self marked55) = Some {[(1, 1); (2, 1)]}
  ∧ ∃ l w1 r w2, forbidden_cells marked55 = (Ok l, w1)
      ∧ generate w1 = (r, w2)
      ∧ sets w2 !! l = Some {[(1, 1); (2, 1)]}
      ∧ _forbidden (self w2) ≠ l.
Proof.
  assert (HX : sets marked55 !! _forbidden (self marked55)
               = Some {[(1, 1); (2, 1)]}) by (vm_compute; reflexivity).
  split; [exact HX|].
  destruct (forbidden_cells marked55) as [[l|e] w1] eqn:Hf;
    [|vm_compute in Hf; discriminate Hf].
  destruct (generate w1) as [r w2] eqn:Hg.
  exists l, w1, r, w2. split; [done|]. split; [done|].
  destruct (generate_keeps_copies marked55 l w1 r w2 Hf Hg) as [Hl Hne].
  rewrite (lookup_total_correct _ _ _ HX) in Hl. split; [exact Hl|].
  apply Hne. by eexists.
Defined.

End Examples.
